(** * TextDigest: the extractive summarizer and the word-frequency ranking
    of EchoScribe ([src/app.py]: [STOPWORDS], [quick_summarize], [top_words]).

    Text is modelled as a list of characters whose code points are below 256
    ([ascii]); Python's whitespace test ([str.split], [str.strip], regex [\s])
    is written out for that range. *)

From Stdlib Require Import Ascii String List Bool ZArith Lia Sorted Permutation.
From stdpp Require Import list.
Import ListNotations.

Definition str := list ascii.

Definition S_ (s : string) : str := list_ascii_of_string s.

(** ** Character classes *)

(** Python's [str.isspace] restricted to code points 0..255. *)
Definition is_space (c : ascii) : bool :=
  let n := nat_of_ascii c in
  ((9 <=? n) && (n <=? 13)) || ((28 <=? n) && (n <=? 32))
  || (n =? 133) || (n =? 160).

Definition is_upper (c : ascii) : bool :=
  let n := nat_of_ascii c in (65 <=? n) && (n <=? 90).

Definition is_lower (c : ascii) : bool :=
  let n := nat_of_ascii c in (97 <=? n) && (n <=? 122).

(** The regex class [[A-Za-z']]. *)
Definition is_word_char (c : ascii) : bool :=
  is_upper c || is_lower c || (nat_of_ascii c =? 39).

(** [str.lower] on a character ([A-Z] are the only letters a token holds). *)
Definition lower_char (c : ascii) : ascii :=
  if is_upper c then ascii_of_nat (nat_of_ascii c + 32) else c.

Definition lower (w : str) : str := map lower_char w.

Definition str_eqb (a b : str) : bool :=
  if List.list_eq_dec ascii_dec a b then true else false.

Definition mem (s : str) (l : list str) : bool := existsb (str_eqb s) l.

(** ** Scanning *)

Definition flush (acc : str) : list str :=
  match acc with [] => [] | _ => [rev acc] end.

(** Maximal runs of characters satisfying [p], left to right; [acc] is the
    current run, reversed. *)
Fixpoint runs (p : ascii -> bool) (acc : str) (l : str) : list str :=
  match l with
  | [] => flush acc
  | c :: l' => if p c then runs p (c :: acc) l' else flush acc ++ runs p [] l'
  end.

(** [re.findall(r"[A-Za-z']+", text)] *)
Definition findall_words (text : str) : list str := runs is_word_char [] text.

(** [text.split()] *)
Definition py_split (text : str) : list str :=
  runs (fun c => negb (is_space c)) [] text.

Fixpoint drop_space (l : str) : str :=
  match l with
  | c :: l' => if is_space c then drop_space l' else l
  | [] => []
  end.

(** [text.strip()] *)
Definition py_strip (text : str) : str := rev (drop_space (rev (drop_space text))).

Definition is_punct (c : ascii) : bool :=
  let n := nat_of_ascii c in (n =? 46) || (n =? 33) || (n =? 63).

(** [re.split(r'(?<=[.!?])\s+', s)]: the state is [None] inside a
    separator (a run of whitespace already matched), [Some b] inside a
    piece, [b] telling whether the previous character is one of [.!?]. *)
Fixpoint split_go (st : option bool) (acc : str) (l : str) : list str :=
  match l with
  | [] => [rev acc]
  | c :: l' =>
      match st with
      | None =>
          if is_space c then split_go None acc l'
          else split_go (Some (is_punct c)) (c :: acc) l'
      | Some prev =>
          if prev && is_space c then rev acc :: split_go None [] l'
          else split_go (Some (is_punct c)) (c :: acc) l'
      end
  end.

Definition re_split_sent (s : str) : list str := split_go (Some false) [] s.

(** [" ".join(l)] *)
Fixpoint join_space (l : list str) : str :=
  match l with
  | [] => []
  | [x] => x
  | x :: xs => x ++ [" "%char] ++ join_space xs
  end.

(** ** STOPWORDS *)

Definition STOPWORDS : list str :=
  map S_ ["a"; "an"; "and"; "are"; "as"; "at"; "be"; "by"; "for"; "from";
          "has"; "he"; "in"; "is"; "it"; "its"; "of"; "on"; "that"; "the";
          "to"; "was"; "were"; "will"; "with"; "your"; "you"; "i"; "me";
          "my"; "we"; "our"; "theirs"; "ours"]%string.

Definition is_stopword (w : str) : bool := mem w STOPWORDS.

(** [words = [w.lower() for w in re.findall(r"[A-Za-z']+", text)]]
    followed by [words = [w for w in words if w not in STOPWORDS]]. *)
Definition tokens (text : str) : list str :=
  List.filter (fun w => negb (is_stopword w)) (map lower (findall_words text)).

(** ** Counter: an insertion-ordered table (first occurrence first). *)

Definition table := list (str * nat).

Fixpoint counter_add (w : str) (t : table) : table :=
  match t with
  | [] => [(w, 1)]
  | (k, n) :: t' => if str_eqb k w then (k, S n) :: t' else (k, n) :: counter_add w t'
  end.

(** [Counter(words)] *)
Definition counter (ws : list str) : table :=
  fold_left (fun t w => counter_add w t) ws [].

(** [freq.get(w, 0)] *)
Fixpoint get (t : table) (w : str) : nat :=
  match t with
  | [] => 0
  | (k, n) :: t' => if str_eqb k w then n else get t' w
  end.

(** ** Sorting *)

(** A stable insertion sort: [before x y] says that [x] may stay in front
    of [y]; an element goes in front of the first element it may precede.
    Python's [sorted] (stable, also with [reverse=True]) yields the same
    list for the orders used below. *)
Section Sort.
Context {A : Type} (before : A -> A -> bool).

Fixpoint ins (x : A) (l : list A) : list A :=
    match l with
    | [] => [x]
    | y :: ys => if before x y then x :: y :: ys else y :: ins x ys
    end.

Definition isort (l : list A) : list A := fold_right ins [] l.
End Sort.

(** [l[:n]] for a Python integer [n]. *)
Definition py_take {A} (n : Z) (l : list A) : list A :=
  if (0 <=? n)%Z then firstn (Z.to_nat n) l
  else firstn (length l - Z.to_nat (- n)) l.

(** ** top_words *)

(** [sorted(items, key=itemgetter(1), reverse=True)] *)
Definition count_before (a b : str * nat) : bool := snd b <=? snd a.

Definition sort_by_count (t : table) : table := isort count_before t.

(** [max(it, key=itemgetter(1))]: the first item of maximal count. *)
Definition max_first (t : table) : option (str * nat) :=
  match t with
  | [] => None
  | x :: xs => Some (fold_left (fun acc y => if snd acc <? snd y then y else acc) xs x)
  end.

(** [heapq.nlargest(n, items, key=itemgetter(1))]. The heap branch
    ([1 < n < len]) is rendered by the function's documented equivalent
    [sorted(items, key=key, reverse=True)[:n]]; for [n <= 0] that branch
    builds its heap from [zip(range(0, -n, -1), it)], which is empty, and
    returns it. *)
Definition nlargest (n : Z) (t : table) : table :=
  if (n =? 1)%Z then
    match max_first t with None => [] | Some x => [x] end
  else if (Z.of_nat (length t) <=? n)%Z then py_take n (sort_by_count t)
  else if (n <=? 0)%Z then []
  else firstn (Z.to_nat n) (sort_by_count t).

(** [Counter(words).most_common(n)] *)
Definition top_words (text : str) (n : Z) : table :=
  nlargest n (counter (tokens text)).

(** ** quick_summarize *)

(** [sum(freq.get(w, 0) for w in sw)] with [sw] the lowered tokens of [s]
    (stopwords are not removed here). *)
Definition sentence_score (freq : table) (s : str) : nat :=
  list_sum (map (get freq) (map lower (findall_words s))).

Definition cand := (nat * nat * str)%type.

Definition score_list (freq : table) (sents : list str) : list cand :=
  map (fun p => (sentence_score freq (snd p), fst p, snd p))
      (combine (seq 0 (length sents)) sents).

(** [sorted(scores, reverse=True)] on tuples [(score, i, s)]: descending
    lexicographic order; the indices are distinct, so [s] is never compared. *)
Definition cand_before (a b : cand) : bool :=
  let '(sa, ia, _) := a in let '(sb, ib, _) := b in
  (sb <? sa) || ((sb =? sa) && (ib <=? ia)).

Definition sents_of (text : str) : list str := re_split_sent (py_strip text).

Definition freq_of (text : str) : table := counter (tokens text).

Definition scores_of (text : str) : list cand := score_list (freq_of text) (sents_of text).

Definition ranking (text : str) : list cand := isort cand_before (scores_of text).

(** [sorted(scores, reverse=True)[:max_sentences]] *)
Definition top_of (text : str) (k : Z) : list cand := py_take k (ranking text).

Definition cand_sent (c : cand) : str := let '(_, _, s) := c in s.

Definition idx_before (a b : nat * str) : bool := fst a <=? fst b.

(** [sorted([(i, s) for _, i, s in scores if s in top], key=lambda x: x[0])] *)
Definition chosen_of (text : str) (k : Z) : list (nat * str) :=
  let top := map cand_sent (top_of text k) in
  isort idx_before
    (List.filter (fun p => mem (snd p) top)
       (map (fun c => let '(_, i, s) := c in (i, s)) (scores_of text))).

Definition quick_summarize (text : str) (max_sentences : Z) : str :=
  if (match text with [] => true | _ => false end)
     || (length (py_split text) <? 20) then text
  else if (Z.of_nat (length (sents_of text)) <=? max_sentences)%Z then text
  else join_space (map snd (chosen_of text max_sentences)).

(** ** Sanity checks *)

Example split_ex :
  re_split_sent (S_ "a. b!  c?d. ") = [S_ "a."; S_ "b!"; S_ "c?d."; []].
Proof. reflexivity. Qed.

Example top_words_ex :
  top_words (S_ "The cat sat on the mat and the cat ran") 3
  = [(S_ "cat", 2); (S_ "sat", 1); (S_ "mat", 1)].
Proof. vm_compute. reflexivity. Qed.

Example summarize_short : quick_summarize (S_ "Too short text.") 3 = S_ "Too short text.".
Proof. vm_compute. reflexivity. Qed.

(** ** The summarizer's fallback gate *)

Definition is_nil (text : str) : bool := match text with [] => true | _ => false end.

(** The three early returns of [quick_summarize]. *)
Definition fallback (text : str) (k : Z) : bool :=
  is_nil text || (length (py_split text) <? 20)
  || (Z.of_nat (length (sents_of text)) <=? k)%Z.

(** The tokens of a word list in the order of their first occurrence. *)
Definition first_occ (ws : list str) : list str :=
  fold_left (fun acc w => if mem w acc then acc else acc ++ [w]) ws [].

(** ** Helpers: [clean_quotes], [make_txt_bytes], [make_docx_bytes] *)

Fixpoint drop_while (p : ascii -> bool) (l : str) : str :=
  match l with
  | c :: l' => if p c then drop_while p l' else l
  | [] => []
  end.

(** [s.strip(chars)] for the characters satisfying [p]. *)
Definition strip_by (p : ascii -> bool) (s : str) : str :=
  rev (drop_while p (rev (drop_while p s))).

Definition is_code (n : nat) (c : ascii) : bool := nat_of_ascii c =? n.

(** [path_or_name.strip()], then stripped of double quotes (code 34),
    then of single quotes (code 39). *)
Definition clean_quotes (path_or_name : str) : str :=
  strip_by (is_code 39) (strip_by (is_code 34) (py_strip path_or_name)).

(** [text.encode("utf-8")] for code points below 256, bytes as integers. *)
Definition utf8_char (c : ascii) : list Z :=
  let n := Z.of_nat (nat_of_ascii c) in
  if (n <? 128)%Z then [n] else [192 + n / 64; 128 + n mod 64]%Z.

Definition make_txt_bytes (text : str) : list Z := flat_map utf8_char text.

(** [text.split("\n")] *)
Fixpoint split_nl_go (acc : str) (l : str) : list str :=
  match l with
  | [] => [rev acc]
  | c :: l' => if is_code 10 c then rev acc :: split_nl_go [] l' else split_nl_go (c :: acc) l'
  end.

Definition split_nl (text : str) : list str := split_nl_go [] text.

(** The paragraphs [make_docx_bytes] adds to the document: the split
    of [text] at newlines, or one empty paragraph when [text] is empty. *)
Definition docx_paragraphs (text : str) : list str :=
  match text with [] => [[]] | _ => split_nl text end.

(** ["\n".join(l)] *)
Fixpoint join_nl (l : list str) : str :=
  match l with
  | [] => []
  | [x] => x
  | x :: xs => x ++ [ascii_of_nat 10] ++ join_nl xs
  end.

(** ** The page's session state *)

(** [{source, lang, text}] *)
Record hist_item := { source : str; lang : str; item_text : str }.

(** [st.session_state.transcription] and [st.session_state.history] *)
Record session := { transcription : str; history : list hist_item }.

(** What [r.recognize_google] does inside [transcribe_wav_path]. *)
Inductive recog_outcome :=
| Recognized (t : str)
| UnknownValue
| RequestError (e : str)
| OtherError (e : str).

(** [transcribe_wav_path]: the exceptions become messages. *)
Definition transcribe_result (o : recog_outcome) : str :=
  match o with
  | Recognized t => t
  | UnknownValue => S_ "Error: Could not understand the audio (maybe too noisy or unclear)."
  | RequestError e => S_ "API Error: Could not request results; " ++ e
  | OtherError e => S_ "An unexpected error occurred: " ++ e
  end.

(** The handler body: either the audio reached the recognizer, or a step
    before the state update raised (conversion, temp file), which the
    handler's [except] turns into [st.error] only. *)
Inductive pipeline := Transcribed (o : recog_outcome) | Failed (msg : str).

Inductive event :=
| UploadEv (name language : str) (p : pipeline)  (** upload button with a file *)
| MicEv (language : str) (p : pipeline)          (** record button with audio *)
| ClearEv.                                        (** the Clear button *)

Definition record_text (s : session) (src language : str) (p : pipeline) : session :=
  match p with
  | Transcribed o =>
      let text := transcribe_result o in
      {| transcription := text;
         history := history s ++ [{| source := src; lang := language; item_text := text |}] |}
  | Failed _ => s
  end.

Definition step (s : session) (e : event) : session :=
  match e with
  | UploadEv name language p => record_text s (S_ "Upload: " ++ name) language p
  | MicEv language p => record_text s (S_ "Microphone") language p
  | ClearEv =>
      (** the button is shown only under [if st.session_state.transcription] *)
      match transcription s with
      | [] => s
      | _ => {| transcription := []; history := history s |}
      end
  end.

Definition run (s : session) (es : list event) : session := fold_left step es s.

(** The events whose handler reaches the recognizer. *)
Definition recorded (e : event) : bool :=
  match e with
  | UploadEv _ _ (Transcribed _) | MicEv _ (Transcribed _) => true
  | _ => false
  end.

(** Characters [clean_quotes] strips from the ends. *)
Definition quote_or_space (c : ascii) : bool := is_space c || is_code 34 c || is_code 39 c.

(** [st.session_state.history[::-1][:5]] *)
Definition history_view (h : list hist_item) : list hist_item := firstn 5 (rev h).

(** The history entry's code block: the first 800 characters of the text,
    followed by an ellipsis [ell] when the text is longer than 800; over
    any character type. *)
Definition snippet {A} (ell : A) (text : list A) : list A :=
  firstn 800 text ++ (if 800 <? length text then [ell] else []).

(** The Quick Summary box: [quick_summarize(txt, max_sentences=3)], or the
    dash placeholder (here [None]) when that is empty. *)
Definition summary_box (txt : str) : option str :=
  match quick_summarize txt 3 with [] => None | s => Some s end.

(** ** Sample documents *)

(** Three sentences of seven distinct non-stopword tokens each (21 words). *)
Definition sent0 : str := S_ "alpha beta gamma delta epsilon zeta eta.".
Definition sent1 : str := S_ "theta iota kappa lambda mu nu xi.".
Definition sent2 : str := S_ "omicron pi rho sigma tau upsilon phi.".
Definition doc_ties : str := sent0 ++ [" "%char] ++ sent1 ++ [" "%char] ++ sent2.

(** A ten-word sentence occurring twice. *)
Definition sent_cat : str := S_ "cat cat cat cat cat cat cat cat cat cat.".
Definition doc_dup : str := sent_cat ++ [" "%char] ++ sent_cat.
Definition doc_dup_dog : str := doc_dup ++ S_ " dog.".

(** * General facts *)

Section SortFacts.
Context {A : Type} (before : A -> A -> bool).

Lemma ins_perm x l : Permutation (ins before x l) (x :: l).
  Proof.
    induction l as [|y ys IH]; simpl; [reflexivity|].
    destruct (before x y); [reflexivity|].
    rewrite IH. apply perm_swap.
  Qed.

Lemma isort_perm l : Permutation (isort before l) l.
  Proof.
    induction l as [|x l IH]; simpl; [reflexivity|].
    rewrite ins_perm, IH. reflexivity.
  Qed.

Hypothesis before_total : forall x y, before x y = false -> before y x = true.

Let R x y := before x y = true.

Lemma ins_hdrel y x l : HdRel R y l -> R y x -> HdRel R y (ins before x l).
  Proof.
    intros H Hyx. destruct l as [|z zs]; simpl.
    - constructor. exact Hyx.
    - destruct (before x z); constructor; [exact Hyx|]. inversion H; auto.
  Qed.

Lemma ins_sorted x l : Sorted R l -> Sorted R (ins before x l).
  Proof.
    induction 1 as [|y ys Hs IH Hd]; simpl.
    - repeat constructor.
    - destruct (before x y) eqn:E.
      + constructor; [constructor; auto|]. constructor. exact E.
      + constructor; [exact IH|]. apply ins_hdrel; [exact Hd|].
        apply before_total. exact E.
  Qed.

Lemma isort_sorted l : Sorted R (isort before l).
  Proof.
    induction l as [|x l IH]; simpl; [constructor|]. apply ins_sorted, IH.
  Qed.

  (** Stability: an element that does not have to overtake [y] keeps the
      elements of its class in order. *)
Lemma ins_filter (P : A -> bool) x l :
    (forall y, P x = true -> before x y = false -> P y = false) ->
    List.filter P (ins before x l) =
    if P x then x :: List.filter P l else List.filter P l.
  Proof.
    intros HP. induction l as [|y ys IH]; simpl.
    - destruct (P x); reflexivity.
    - destruct (before x y) eqn:E; simpl.
      + reflexivity.
      + rewrite IH. destruct (P x) eqn:Px; [|reflexivity].
        rewrite (HP y eq_refl E). reflexivity.
  Qed.

  (** A list already in order is left as it is. *)
Lemma isort_sorted_id l : Sorted R l -> isort before l = l.
  Proof.
    induction 1 as [|x l Hs IH Hd]; simpl; [reflexivity|].
    rewrite IH. destruct l as [|y ys]; simpl; [reflexivity|].
    inversion Hd; subst. unfold R in *. rewrite H0. reflexivity.
  Qed.
End SortFacts.

Lemma sorted_firstn {A} (R : A -> A -> Prop) n l :
  Sorted R l -> Sorted R (firstn n l).
Proof.
  revert l; induction n as [|n IH]; intros l H; simpl; [constructor|].
  destruct l as [|x l]; [constructor|].
  inversion H as [|? ? Hs Hd]; subst. constructor; [apply IH, Hs|].
  destruct n, l; simpl; constructor. inversion Hd; auto.
Qed.

(** In a list sorted by [R], an element that [x] cannot precede lies in
    every prefix that contains [x]. *)
Lemma strongly_sorted_prefix {A} (R : A -> A -> Prop) m l x y :
  StronglySorted R l -> In x (firstn m l) -> In y l -> ~ R x y ->
  In y (firstn m l).
Proof.
  revert m; induction l as [|a l IH]; intros m Hs Hx Hy Hxy;
    [destruct m; contradiction|].
  destruct m as [|m]; [contradiction|]. simpl in *.
  inversion Hs as [|? ? Hs' Hall]; subst.
  destruct Hy as [<-|Hy]; [left; reflexivity|]. right.
  destruct Hx as [<-|Hx].
  - exfalso. apply Hxy. rewrite List.Forall_forall in Hall. apply Hall, Hy.
  - apply IH; assumption.
Qed.

Lemma py_take_firstn {A} (n : Z) (l : list A) :
  exists m, py_take n l = firstn m l.
Proof. unfold py_take. destruct (0 <=? n)%Z; eexists; reflexivity. Qed.

Lemma py_take_nonneg {A} (n : Z) (l : list A) :
  (0 <= n)%Z -> py_take n l = firstn (Z.to_nat n) l.
Proof. intros H. unfold py_take. destruct (Z.leb_spec 0 n); [reflexivity|lia]. Qed.

(** * top_words *)

Lemma count_before_total x y : count_before x y = false -> count_before y x = true.
Proof. unfold count_before. intros H. apply Nat.leb_gt in H. apply Nat.leb_le. lia. Qed.

Lemma hd_ins {A} (before : A -> A -> bool) d x l :
  hd d (ins before x l) =
  match l with [] => x | z :: _ => if before x z then x else z end.
Proof. destruct l as [|z zs]; simpl; [reflexivity|]. destruct (before x z); reflexivity. Qed.

Lemma ins_not_nil {A} (before : A -> A -> bool) x l : ins before x l <> [].
Proof. destruct l; simpl; [discriminate|]. destruct (before x a); discriminate. Qed.

(** [max(..., key=itemgetter(1))] is the head of the stable descending sort. *)
Lemma max_first_hd x xs :
  fold_left (fun acc y => if snd acc <? snd y then y else acc) xs x
  = hd x (sort_by_count (x :: xs)).
Proof.
  revert x; induction xs as [|y ys IH]; intros x; [reflexivity|].
  simpl fold_left. rewrite IH. unfold sort_by_count. simpl isort.
  rewrite !hd_ins.
  destruct (isort count_before ys) as [|z zs] eqn:E.
  - simpl. unfold count_before.
    destruct (Nat.ltb_spec (snd x) (snd y)), (Nat.leb_spec (snd y) (snd x)); simpl;
      try lia; try reflexivity;
      destruct (Nat.leb_spec (snd x) (snd y)); reflexivity || lia.
  - pose proof (hd_ins count_before x y (z :: zs)) as Hh.
    destruct (ins count_before y (z :: zs)) as [|h hs] eqn:Ei;
      [exfalso; eapply ins_not_nil; exact Ei|].
    simpl in Hh. subst h. unfold count_before.
    destruct (Nat.ltb_spec (snd x) (snd y)), (Nat.leb_spec (snd z) (snd y));
      simpl; destruct (Nat.leb_spec (snd z) (snd x)); simpl; try lia;
      try reflexivity;
      repeat match goal with
             | |- context [?a <=? ?b] => destruct (Nat.leb_spec a b); simpl
             end; try lia; reflexivity.
Qed.

(** [most_common(n)] is the first [n] items of the stable descending sort. *)
Lemma nlargest_firstn n t :
  nlargest n t = firstn (Z.to_nat n) (sort_by_count t).
Proof.
  unfold nlargest.
  destruct (Z.eqb_spec n 1) as [->|Hn1].
  - destruct t as [|x xs]; [reflexivity|]. cbn [max_first].
    rewrite max_first_hd. change (Z.to_nat 1) with 1.
    destruct (sort_by_count (x :: xs)) eqn:E; [|reflexivity].
    exfalso. unfold sort_by_count in E. simpl in E. eapply ins_not_nil; exact E.
  - destruct (Z.leb_spec (Z.of_nat (length t)) n).
    + apply py_take_nonneg. lia.
    + destruct (Z.leb_spec n 0); [|reflexivity].
      replace (Z.to_nat n) with 0 by lia. reflexivity.
Qed.

Lemma sorted_impl {A} (R1 R2 : A -> A -> Prop) l :
  (forall x y, R1 x y -> R2 x y) -> Sorted R1 l -> Sorted R2 l.
Proof.
  intros HR. induction 1 as [|x l Hs IH Hd]; constructor; [exact IH|].
  destruct Hd; constructor. apply HR. assumption.
Qed.

Lemma str_eqb_eq a b : str_eqb a b = true <-> a = b.
Proof. unfold str_eqb. destruct (List.list_eq_dec ascii_dec a b); split; congruence. Qed.

Lemma str_eqb_refl a : str_eqb a a = true.
Proof. apply str_eqb_eq. reflexivity. Qed.

Lemma str_eqb_sym a b : str_eqb a b = str_eqb b a.
Proof.
  destruct (str_eqb a b) eqn:E1, (str_eqb b a) eqn:E2; try reflexivity.
  - apply str_eqb_eq in E1. subst. rewrite str_eqb_refl in E2. discriminate.
  - apply str_eqb_eq in E2. subst. rewrite str_eqb_refl in E1. discriminate.
Qed.

Lemma keys_counter_add w t :
  map fst (counter_add w t) =
  if mem w (map fst t) then map fst t else map fst t ++ [w].
Proof.
  induction t as [|[k n] t IH]; simpl; [reflexivity|].
  rewrite (str_eqb_sym w k).
  destruct (str_eqb k w); simpl; [reflexivity|].
  rewrite IH. destruct (mem w (map fst t)); reflexivity.
Qed.

(** The keys of [Counter(words)] come in first-occurrence order. *)
Lemma counter_keys ws : map fst (counter ws) = first_occ ws.
Proof.
  unfold counter, first_occ.
  assert (G : forall t acc, map fst t = acc ->
            map fst (fold_left (fun t w => counter_add w t) ws t)
            = fold_left (fun acc w => if mem w acc then acc else acc ++ [w]) ws acc).
  { induction ws as [|w ws IH]; intros t acc H; simpl; [exact H|].
    apply IH. rewrite keys_counter_add, H. reflexivity. }
  apply G. reflexivity.
Qed.

Lemma in_first_occ x ws : In x (first_occ ws) -> In x ws.
Proof.
  unfold first_occ.
  assert (G : forall acc, In x (fold_left (fun acc w => if mem w acc then acc else acc ++ [w]) ws acc)
            -> In x acc \/ In x ws).
  { induction ws as [|w ws IH]; intros acc H; simpl in *; [left; exact H|].
    destruct (IH _ H) as [Hi|Hi]; [|right; right; exact Hi].
    destruct (mem w acc); [left; exact Hi|].
    apply in_app_or in Hi. destruct Hi as [Hi|[<-|[]]]; [left; exact Hi|right; left; reflexivity]. }
  intros H. destruct (G [] H) as [[]|Hi]. exact Hi.
Qed.

Lemma in_tokens_not_stop text w : In w (tokens text) -> is_stopword w = false.
Proof.
  unfold tokens. intros H. apply filter_In in H. destruct H as [_ H].
  destruct (is_stopword w); [discriminate|reflexivity].
Qed.

Lemma in_firstn {A} n (l : list A) x : In x (firstn n l) -> In x l.
Proof. intros H. rewrite <- (firstn_skipn n l). apply in_or_app. left. exact H. Qed.

Lemma in_top_words text n p :
  In p (top_words text n) -> In (fst p) (tokens text).
Proof.
  unfold top_words. rewrite nlargest_firstn. intros H.
  apply in_firstn in H.
  apply (Permutation_in _ (isort_perm _ _)) in H.
  apply in_first_occ. rewrite <- counter_keys. apply in_map, H.
Qed.

Lemma runs_repeat p c acc m :
  p c = true -> runs p acc (repeat c m) = flush (repeat c m ++ acc).
Proof.
  intros Hc. revert acc; induction m as [|m IH]; intros acc; [reflexivity|].
  cbn [repeat runs]. rewrite Hc, IH.
  assert (E : repeat c m ++ c :: acc = c :: repeat c m ++ acc).
  { clear IH. induction m as [|m IH]; simpl; congruence. }
  rewrite E. reflexivity.
Qed.

Lemma lower_repeat c m : is_upper c = false -> lower (repeat c m) = repeat c m.
Proof.
  intros Hc. induction m as [|m IH]; simpl; [reflexivity|].
  rewrite IH. unfold lower_char. rewrite Hc. reflexivity.
Qed.

(** ** Claims about RankTopWords *)

(** C5: [top_words] returns the first [topN] entries of the Counter sorted
    by count descending with a stable sort: the result is ordered by count
    descending, the sort only permutes the table, within every count the
    table's order is kept, and the table lists the tokens in the order of
    their first occurrence; on "cat cat dog dog" with [topN = 2] the result
    is [("cat",2); ("dog",2)]. *)
Theorem top_words_ranked_stable (text : str) (n : Z) :
  let t := counter (tokens text) in
  top_words text n = firstn (Z.to_nat n) (sort_by_count t)
  /\ Permutation (sort_by_count t) t
  /\ Sorted (fun a b => snd b <= snd a) (top_words text n)
  /\ (forall c, List.filter (fun p => snd p =? c) (sort_by_count t)
                = List.filter (fun p => snd p =? c) t)
  /\ map fst t = first_occ (tokens text)
  /\ top_words (S_ "cat cat dog dog") 2 = [(S_ "cat", 2); (S_ "dog", 2)].
Proof.
  intros t. split; [apply nlargest_firstn|].
  split; [apply isort_perm|].
  split.
  { unfold top_words. rewrite nlargest_firstn. apply sorted_firstn.
    eapply sorted_impl; [|apply isort_sorted, count_before_total].
    intros x y H. apply Nat.leb_le. exact H. }
  split.
  { intros c. unfold sort_by_count. generalize t as l.
    induction l as [|x l IH]; [reflexivity|]. simpl isort.
    rewrite ins_filter.
    - simpl. rewrite IH. reflexivity.
    - intros y Hx Hb. unfold count_before in Hb.
      apply Nat.eqb_eq in Hx. apply Nat.leb_gt in Hb. apply Nat.eqb_neq. lia. }
  split; [apply counter_keys|].
  vm_compute. reflexivity.
Qed.

(** C6: no pair returned by [top_words] has a stopword as its token, and a
    document whose tokens are all stopwords yields the empty list. *)
Theorem top_words_no_stopwords (text : str) (n : Z) :
  (forall p, In p (top_words text n) -> is_stopword (fst p) = false)
  /\ (forallb is_stopword (map lower (findall_words text)) = true ->
      top_words text n = []).
Proof.
  split.
  - intros p H. apply (in_tokens_not_stop text). apply (in_top_words text n), H.
  - intros Hall. unfold top_words.
    assert (E : tokens text = []).
    { unfold tokens. induction (map lower (findall_words text)) as [|w ws IH];
        [reflexivity|].
      simpl in *. apply andb_true_iff in Hall. destruct Hall as [Hw Hws].
      rewrite Hw. simpl. apply IH, Hws. }
    rewrite E. rewrite nlargest_firstn. destruct (Z.to_nat n); reflexivity.
Qed.

Lemma top_words_no_stopwords_witness :
  forallb is_stopword (map lower (findall_words (S_ "The cat and the dog")))
    = false
  /\ top_words (S_ "The, and ON it: the") 3 = [].
Proof.
  split; [vm_compute; reflexivity|].
  apply (proj2 (top_words_no_stopwords (S_ "The, and ON it: the") 3)).
  vm_compute. reflexivity.
Defined.

(** C9: for [topN <= 0] (negative values included) [top_words] returns
    the empty list. *)
Theorem top_words_nonpositive (text : str) (n : Z) :
  (n <= 0)%Z -> top_words text n = [].
Proof.
  intros Hn. unfold top_words. rewrite nlargest_firstn.
  replace (Z.to_nat n) with 0 by lia. reflexivity.
Qed.

Lemma top_words_nonpositive_witness :
  top_words (S_ "cat dog bird cat fish owl") (-3) = [].
Proof. apply top_words_nonpositive. lia. Defined.

(** C10: a run of apostrophes is a token: [findall] returns it, it is no
    stopword, it is counted in the frequency table, it adds its frequency
    to the score of a sentence holding it, and [top_words] can return it;
    e.g. on "the ''' cat" the top two are [("'''",1); ("cat",1)]. *)
Theorem apostrophe_run_token (m : nat) :
  let w := repeat "'"%char (S m) in
  findall_words w = [w]
  /\ tokens w = [w]
  /\ is_stopword w = false
  /\ get (freq_of w) w = 1
  /\ (forall f, sentence_score f w = get f w)
  /\ top_words w 1 = [(w, 1)]
  /\ top_words (S_ "the ''' cat") 2 = [(S_ "'''", 1); (S_ "cat", 1)].
Proof.
  intros w.
  assert (Hf : findall_words w = [w]).
  { unfold findall_words, w. rewrite runs_repeat by reflexivity.
    rewrite app_nil_r. unfold flush. simpl repeat at 1.
    f_equal. apply rev_repeat. }
  assert (Hl : lower w = w) by (apply lower_repeat; reflexivity).
  assert (Hs : is_stopword w = false) by (unfold w; vm_compute; reflexivity).
  assert (Ht : tokens w = [w]).
  { unfold tokens. rewrite Hf. cbn [map]. rewrite Hl. cbn [List.filter].
    rewrite Hs. reflexivity. }
  split; [exact Hf|]. split; [exact Ht|]. split; [exact Hs|].
  split; [unfold freq_of; rewrite Ht; simpl; rewrite str_eqb_refl; reflexivity|].
  split; [intros f; unfold sentence_score; rewrite Hf; cbn [map]; rewrite Hl;
          simpl; lia|].
  split; [unfold top_words; rewrite Ht; reflexivity|].
  vm_compute. reflexivity.
Qed.

(** * quick_summarize *)

Lemma quick_summarize_eq text k :
  quick_summarize text k =
  if fallback text k then text else join_space (map snd (chosen_of text k)).
Proof.
  unfold quick_summarize, fallback, is_nil.
  destruct (_ || (length (py_split text) <? 20)); [reflexivity|].
  destruct (Z.of_nat (length (sents_of text)) <=? k)%Z; reflexivity.
Qed.

Lemma split_go_not_nil st acc l : split_go st acc l <> [].
Proof.
  revert st acc; induction l as [|c l IH]; intros st acc; simpl; [discriminate|].
  destruct st as [prev|].
  - destruct (prev && is_space c); [discriminate|apply IH].
  - destruct (is_space c); apply IH.
Qed.

Lemma sents_of_not_nil text : sents_of text <> [].
Proof. apply split_go_not_nil. Qed.

Lemma drop_scores_enum freq sents :
  map (fun c : cand => let '(_, i, s) := c in (i, s)) (score_list freq sents)
  = combine (seq 0 (length sents)) sents.
Proof.
  unfold score_list. rewrite map_map.
  transitivity (map (fun p : nat * str => p) (combine (seq 0 (length sents)) sents)).
  - apply map_ext. intros [i s]. reflexivity.
  - apply map_id.
Qed.

Lemma enum_strongly_sorted a (l : list str) :
  StronglySorted (fun x y : nat * str => fst x < fst y) (combine (seq a (length l)) l).
Proof.
  revert a; induction l as [|x l IH]; intros a; simpl; constructor; [apply IH|].
  apply List.Forall_forall. intros [i s] H. simpl.
  assert (G : forall b (l' : list str) (p : nat * str),
             In p (combine (seq b (length l')) l') -> b <= fst p).
  { clear. intros b l'. revert b. induction l' as [|y l' IH]; intros b p H;
      [destruct H|].
    simpl in H. destruct H as [<-|H]; [simpl; lia|]. apply IH in H. lia. }
  apply G in H. simpl in H. lia.
Qed.

Lemma enum_nth a (l : list str) i s :
  In (i, s) (combine (seq a (length l)) l) -> nth_error l (i - a) = Some s.
Proof.
  revert a; induction l as [|x l IH]; intros a H; [destruct H|].
  simpl in H. destruct H as [E|H].
  - inversion E; subst. rewrite Nat.sub_diag. reflexivity.
  - pose proof (enum_strongly_sorted (S a) l) as Hs.
    assert (Hi : S a <= i).
    { clear IH Hs. revert a H. induction l as [|y l IH]; intros a H; [destruct H|].
      simpl in H. destruct H as [E|H]; [inversion E; lia|]. apply IH in H. lia. }
    apply IH in H. replace (i - a) with (S (i - S a)) by lia. exact H.
Qed.

Lemma enum_snd a (l : list str) : map snd (combine (seq a (length l)) l) = l.
Proof.
  revert a; induction l as [|x l IH]; intros a; simpl; [reflexivity|]. rewrite IH. reflexivity.
Qed.

Lemma strongly_sorted_filter {A} (R : A -> A -> Prop) (P : A -> bool) l :
  StronglySorted R l -> StronglySorted R (List.filter P l).
Proof.
  induction 1 as [|x l Hs IH Hall]; simpl; [constructor|].
  destruct (P x); [|exact IH]. constructor; [exact IH|].
  apply List.Forall_forall. intros y Hy. apply filter_In in Hy.
  rewrite List.Forall_forall in Hall. apply Hall, Hy.
Qed.

Lemma sublist_map_snd_filter {A B} (P : A * B -> bool) l :
  map snd (List.filter P l) `sublist_of` map snd l.
Proof.
  induction l as [|x l IH]; simpl; [constructor|].
  destruct (P x); simpl; [apply sublist_skip|apply sublist_cons]; exact IH.
Qed.

(** The selection in index order: the final [sorted(..., key=...)] keeps
    the enumeration order. *)
Lemma chosen_of_eq text k :
  chosen_of text k =
  List.filter (fun p => mem (snd p) (map cand_sent (top_of text k)))
    (combine (seq 0 (length (sents_of text))) (sents_of text)).
Proof.
  unfold chosen_of, scores_of. rewrite drop_scores_enum.
  apply isort_sorted_id.
  apply (sorted_impl (fun x y : nat * str => fst x < fst y)).
  - intros x y H. unfold idx_before. apply Nat.leb_le. lia.
  - apply StronglySorted_Sorted, strongly_sorted_filter, enum_strongly_sorted.
Qed.

Lemma cand_before_iff (a b : cand) :
  cand_before a b = true <->
  let '(sa, ia, _) := a in let '(sb, ib, _) := b in
  sb < sa \/ (sb = sa /\ ib <= ia).
Proof.
  destruct a as [[sa ia] x], b as [[sb ib] y]. unfold cand_before.
  rewrite orb_true_iff, andb_true_iff, Nat.ltb_lt, Nat.eqb_eq, Nat.leb_le.
  reflexivity.
Qed.

Lemma cand_before_total a b : cand_before a b = false -> cand_before b a = true.
Proof.
  intros H. apply cand_before_iff.
  destruct a as [[sa ia] x], b as [[sb ib] y].
  assert (H' : ~ (sb < sa \/ (sb = sa /\ ib <= ia))).
  { intros C. pose proof (proj2 (cand_before_iff (sa, ia, x) (sb, ib, y)) C). congruence. }
  lia.
Qed.

Lemma ranking_strongly_sorted text :
  StronglySorted (fun a b => cand_before a b = true) (ranking text).
Proof.
  apply Sorted_StronglySorted; [|apply isort_sorted, cand_before_total].
  intros a b c Hab Hbc. apply cand_before_iff in Hab, Hbc. apply cand_before_iff.
  destruct a as [[sa ia] x], b as [[sb ib] y], c as [[sc ic] z]. lia.
Qed.

Ltac pick_in := vm_compute; repeat first [left; reflexivity | right].

(** ** Claims about Summarize *)

(** C1 (as the code has it): the top slice is taken from the candidates
    sorted by (score, index) descending, so among equal scores the later
    sentence is preferred: if a sentence is in the slice, every sentence of
    the same score and a higher index is in it too. *)
Theorem top_prefers_later_on_tie (text : str) (k : Z) sc i j s s' :
  i < j ->
  In (sc, i, s) (scores_of text) -> In (sc, j, s') (scores_of text) ->
  In (sc, i, s) (top_of text k) -> In (sc, j, s') (top_of text k).
Proof.
  intros Hij _ Hj Hi. unfold top_of in *.
  destruct (py_take_firstn k (ranking text)) as [m E]. rewrite E in *.
  apply (strongly_sorted_prefix (fun a b => cand_before a b = true) m (ranking text) (sc, i, s)).
  - apply ranking_strongly_sorted.
  - exact Hi.
  - apply (Permutation_in _ (Permutation_sym (isort_perm _ _))). exact Hj.
  - intros H. apply cand_before_iff in H. lia.
Qed.

Lemma top_prefers_later_on_tie_witness : In (7, 2, sent2) (top_of doc_ties 2).
Proof.
  apply (top_prefers_later_on_tie doc_ties 2 7 1 2 sent1 sent2);
    [lia|pick_in|pick_in|pick_in].
Defined.

(** C1 fails: the three sentences of [doc_ties] all score 7, and with one
    sentence to pick the slice holds the last one, not the first. *)
Lemma tie_lower_index_not_selected :
  map (fun c : cand => let '(sc, i, _) := c in (sc, i)) (scores_of doc_ties)
    = [(7, 0); (7, 1); (7, 2)]
  /\ top_of doc_ties 1 = [(7, 2, sent2)]
  /\ quick_summarize doc_ties 1 = sent2.
Proof. vm_compute. repeat split. Qed.

(** C2 (code_bug): [s in top] tests the sentence text, so every copy of a
    selected sentence is kept; with one sentence requested, [doc_dup_dog]
    (21 words, 3 sentences) yields two sentences. *)
Theorem summary_exceeds_bound_on_duplicate :
  fallback doc_dup_dog 1 = false
  /\ quick_summarize doc_dup_dog 1 = doc_dup
  /\ length (re_split_sent (quick_summarize doc_dup_dog 1)) = 2.
Proof. vm_compute. repeat split. Qed.

(** C3 (as the code has it): a non-positive [max_sentences] is not
    clamped. Once the document passes the 20-word gate, the summary is
    built from the Python slice [[:k]]: [k = 0] gives the empty string, and
    [k < 0] keeps the ranking without its last [-k] candidates. *)
Theorem summarize_nonpositive (text : str) (k : Z) :
  (k <= 0)%Z -> 20 <= length (py_split text) ->
  quick_summarize text k = join_space (map snd (chosen_of text k))
  /\ ((k < 0)%Z -> top_of text k = firstn (length (ranking text) - Z.to_nat (- k)) (ranking text))
  /\ (k = 0%Z -> quick_summarize text k = []).
Proof.
  intros Hk Hw.
  assert (Hf : fallback text k = false).
  { unfold fallback.
    destruct text as [|c text]; [simpl in Hw; lia|]. simpl is_nil.
    destruct (Nat.ltb_spec (length (py_split (c :: text))) 20); [lia|].
    destruct (sents_of (c :: text)) eqn:E; [exfalso; eapply sents_of_not_nil; exact E|].
    simpl. apply Z.leb_gt. lia. }
  assert (Hq : quick_summarize text k = join_space (map snd (chosen_of text k))).
  { rewrite quick_summarize_eq, Hf. reflexivity. }
  split; [exact Hq|]. split.
  - intros Hn. unfold top_of, py_take. destruct (Z.leb_spec 0 k); [lia|]. reflexivity.
  - intros ->. rewrite Hq, chosen_of_eq. unfold top_of, py_take. simpl.
    induction (combine _ _) as [|p l IH]; [reflexivity|]. exact IH.
Qed.

Lemma summarize_nonpositive_witness :
  quick_summarize doc_ties 0 = [].
Proof.
  pose proof (summarize_nonpositive doc_ties 0 ltac:(lia) ltac:(vm_compute; lia)) as H.
  apply (proj2 (proj2 H)). reflexivity.
Defined.

(** C3 fails: [max_sentences = 0] and [-1] do not behave as [1]. *)
Lemma nonpositive_not_clamped :
  quick_summarize doc_ties 1 = sent2
  /\ quick_summarize doc_ties 0 = []
  /\ quick_summarize doc_ties (-1) = sent1 ++ [" "%char] ++ sent2.
Proof. vm_compute. repeat split. Qed.

(** C4 (code_bug): [doc_dup] is non-empty, has 20 words and 2 > 1
    sentences, so no early return applies; yet, both copies of the
    selected sentence being kept, the summary is the document itself. *)
Theorem identity_without_fallback :
  is_nil doc_dup = false
  /\ length (py_split doc_dup) = 20
  /\ length (sents_of doc_dup) = 2
  /\ fallback doc_dup 1 = false
  /\ quick_summarize doc_dup 1 = doc_dup.
Proof. vm_compute. repeat split. Qed.

(** C7: outside the fallback the summary joins the chosen sentences with
    single spaces in increasing order of their index in the document. *)
Theorem summary_in_document_order (text : str) (k : Z) :
  fallback text k = false ->
  quick_summarize text k = join_space (map snd (chosen_of text k))
  /\ StronglySorted (fun a b => fst a < fst b) (chosen_of text k)
  /\ (forall i s, In (i, s) (chosen_of text k) -> nth_error (sents_of text) i = Some s).
Proof.
  intros Hf. split; [rewrite quick_summarize_eq, Hf; reflexivity|].
  rewrite chosen_of_eq. split.
  - apply strongly_sorted_filter, enum_strongly_sorted.
  - intros i s H. apply filter_In in H. destruct H as [H _].
    apply enum_nth in H. rewrite Nat.sub_0_r in H. exact H.
Qed.

Lemma summary_in_document_order_witness :
  quick_summarize doc_ties (-1) = join_space (map snd (chosen_of doc_ties (-1))).
Proof.
  apply (summary_in_document_order doc_ties (-1)). vm_compute. reflexivity.
Defined.

(** C8: the summary is the document itself (fallback) or the single-space
    join of a sublist of the document's sentences: sentences are copied
    verbatim, in order, each at most as often as it occurs. *)
Theorem summary_sentences_from_document (text : str) (k : Z) :
  (fallback text k = true /\ quick_summarize text k = text)
  \/ (fallback text k = false
      /\ exists ch, ch `sublist_of` sents_of text /\ quick_summarize text k = join_space ch).
Proof.
  rewrite quick_summarize_eq. destruct (fallback text k); [left; split; reflexivity|].
  right. split; [reflexivity|]. exists (map snd (chosen_of text k)). split; [|reflexivity].
  rewrite chosen_of_eq.
  pose proof (sublist_map_snd_filter (fun p => mem (snd p) (map cand_sent (top_of text k)))
                (combine (seq 0 (length (sents_of text))) (sents_of text))) as H.
  rewrite enum_snd in H. exact H.
Qed.

(** * Further properties of the code *)

(** ** top_words *)

Definition str_dec := List.list_eq_dec ascii_dec.

Lemma str_eqb_dec a b : str_eqb a b = if str_dec a b then true else false.
Proof. reflexivity. Qed.

Lemma get_counter_add w t v :
  get (counter_add w t) v = get t v + (if str_eqb w v then 1 else 0).
Proof.
  induction t as [|[k n] t IH]; simpl.
  - destruct (str_eqb w v); reflexivity.
  - destruct (str_eqb k w) eqn:Ekw; simpl.
    + apply str_eqb_eq in Ekw. subst k.
      destruct (str_eqb w v); lia.
    + destruct (str_eqb k v) eqn:Ekv; [|exact IH].
      apply str_eqb_eq in Ekv. subst k. rewrite str_eqb_sym, Ekw. lia.
Qed.

(** [Counter] counts every token exactly. *)
Lemma get_counter ws v : get (counter ws) v = count_occ str_dec ws v.
Proof.
  unfold counter.
  assert (G : forall t, get (fold_left (fun t w => counter_add w t) ws t) v
                        = get t v + count_occ str_dec ws v).
  { induction ws as [|w ws IH]; intros t; simpl; [lia|].
    rewrite IH, get_counter_add, str_eqb_dec. destruct (str_dec w v); lia. }
  rewrite G. reflexivity.
Qed.

Lemma mem_false_not_in w l : mem w l = false -> ~ In w l.
Proof.
  unfold mem. intros H Hin.
  assert (E : existsb (str_eqb w) l = true).
  { apply existsb_exists. exists w. split; [exact Hin|apply str_eqb_refl]. }
  congruence.
Qed.

Lemma nodup_first_occ ws : List.NoDup (first_occ ws).
Proof.
  unfold first_occ.
  assert (G : forall acc, List.NoDup acc ->
            List.NoDup (fold_left (fun acc w => if mem w acc then acc else acc ++ [w]) ws acc)).
  { induction ws as [|w ws IH]; intros acc H; simpl; [exact H|].
    apply IH. destruct (mem w acc) eqn:E; [exact H|].
    apply (Permutation_NoDup (l := w :: acc)); [apply Permutation_cons_append|].
    constructor; [apply mem_false_not_in, E|exact H]. }
  apply G. constructor.
Qed.

Lemma get_in_nodup (t : table) k c :
  List.NoDup (map fst t) -> In (k, c) t -> get t k = c.
Proof.
  induction t as [|[k' n] t IH]; intros Hnd Hin; [destruct Hin|].
  simpl in Hnd. inversion Hnd as [|? ? Hnot Hnd']; subst. simpl.
  destruct Hin as [E|Hin].
  - inversion E; subst. rewrite str_eqb_refl. reflexivity.
  - destruct (str_eqb k' k) eqn:E.
    + apply str_eqb_eq in E. subst k'. exfalso. apply Hnot.
      apply (in_map fst) in Hin. exact Hin.
    + apply IH; assumption.
Qed.

Lemma get_in (t : table) v : get t v <> 0 -> In (v, get t v) t.
Proof.
  induction t as [|[k n] t IH]; simpl; intros H; [congruence|].
  destruct (str_eqb k v) eqn:E.
  - apply str_eqb_eq in E. subst. left. reflexivity.
  - right. apply IH, H.
Qed.

Lemma nodup_keys_counter ws : List.NoDup (map fst (counter ws)).
Proof. rewrite counter_keys. apply nodup_first_occ. Qed.

Lemma top_words_prefix text n :
  top_words text n = firstn (Z.to_nat n) (sort_by_count (counter (tokens text))).
Proof. apply nlargest_firstn. Qed.

Lemma nodup_keys_sorted ws : List.NoDup (map fst (sort_by_count (counter ws))).
Proof.
  eapply Permutation_NoDup; [|apply nodup_keys_counter].
  apply Permutation_map, Permutation_sym, isort_perm.
Qed.

Lemma nodup_firstn {A} m (l : list A) : List.NoDup l -> List.NoDup (firstn m l).
Proof. intros H. rewrite <- (firstn_skipn m l) in H. eapply NoDup_app_remove_r, H. Qed.

Lemma strongly_sorted_app {A} (R : A -> A -> Prop) l1 l2 x y :
  StronglySorted R (l1 ++ l2) -> In x l1 -> In y l2 -> R x y.
Proof.
  induction l1 as [|a l1 IH]; intros Hs Hx Hy; [destruct Hx|].
  simpl in Hs. inversion Hs as [|? ? Hs' Hall]; subst.
  destruct Hx as [<-|Hx].
  - rewrite List.Forall_forall in Hall. apply Hall, in_or_app. right. exact Hy.
  - apply IH; assumption.
Qed.

(** X1: every pair [(w, c)] returned by [top_words] carries the exact
    number [c >= 1] of occurrences of [w] among the filtered tokens. *)
Theorem top_words_counts_exact (text : str) (n : Z) w c :
  In (w, c) (top_words text n) ->
  c = count_occ str_dec (tokens text) w /\ 1 <= c.
Proof.
  intros H.
  assert (Hw : In w (tokens text)) by exact (in_top_words text n (w, c) H).
  rewrite top_words_prefix in H. apply in_firstn in H.
  apply (Permutation_in _ (isort_perm _ _)) in H.
  apply get_in_nodup in H; [|apply nodup_keys_counter].
  rewrite get_counter in H. split; [symmetry; exact H|].
  apply count_occ_In with (eq_dec := str_dec) in Hw. lia.
Qed.

Lemma top_words_counts_exact_witness :
  In (S_ "cat", 2) (top_words (S_ "The cat sat on the mat and the cat ran") 3)
  /\ (2 = count_occ str_dec (tokens (S_ "The cat sat on the mat and the cat ran")) (S_ "cat")
      /\ 1 <= 2).
Proof.
  assert (H : In (S_ "cat", 2) (top_words (S_ "The cat sat on the mat and the cat ran") 3))
    by (vm_compute; left; reflexivity).
  split; [exact H|]. exact (top_words_counts_exact _ 3 _ _ H).
Defined.

(** X2: [top_words] never lists a token twice. *)
Theorem top_words_nodup (text : str) (n : Z) : List.NoDup (map fst (top_words text n)).
Proof.
  rewrite top_words_prefix, <- firstn_map. apply nodup_firstn, nodup_keys_sorted.
Qed.

(** X3: [top_words text n] has [min(n, number of distinct tokens)]
    entries (none for [n <= 0]). *)
Theorem top_words_length (text : str) (n : Z) :
  length (top_words text n) = Nat.min (Z.to_nat n) (length (first_occ (tokens text))).
Proof.
  rewrite top_words_prefix, length_firstn. unfold sort_by_count.
  rewrite (Permutation_length (isort_perm _ _)), <- counter_keys, length_map.
  reflexivity.
Qed.

(** X4: the returned tokens are the most frequent ones: a token left out
    occurs at most as often as any token returned. *)
Theorem top_words_most_frequent (text : str) (n : Z) w c v :
  In (w, c) (top_words text n) -> In v (tokens text) ->
  ~ In v (map fst (top_words text n)) ->
  count_occ str_dec (tokens text) v <= c.
Proof.
  intros Hwc Hv Hnot.
  set (t := counter (tokens text)) in *.
  assert (Hg : get t v <> 0).
  { unfold t. rewrite get_counter. apply count_occ_In with (eq_dec := str_dec) in Hv. lia. }
  assert (Hin : In (v, get t v) (sort_by_count t)).
  { apply (Permutation_in _ (Permutation_sym (isort_perm _ _))), get_in, Hg. }
  rewrite top_words_prefix in Hwc, Hnot. fold t in Hwc, Hnot.
  rewrite <- (firstn_skipn (Z.to_nat n) (sort_by_count t)) in Hin.
  apply in_app_or in Hin. destruct Hin as [Hin|Hin].
  - exfalso. apply Hnot. apply (in_map fst) in Hin. exact Hin.
  - assert (Hs : StronglySorted (fun a b => count_before a b = true) (sort_by_count t)).
    { apply Sorted_StronglySorted; [|apply isort_sorted, count_before_total].
      intros a b d. unfold count_before. rewrite !Nat.leb_le. lia. }
    rewrite <- (firstn_skipn (Z.to_nat n) (sort_by_count t)) in Hs.
    pose proof (strongly_sorted_app _ _ _ _ _ Hs Hwc Hin) as H.
    unfold count_before in H. apply Nat.leb_le in H. simpl in H.
    unfold t in H. rewrite get_counter in H. exact H.
Qed.

Lemma top_words_most_frequent_witness :
  count_occ str_dec (tokens (S_ "cat cat dog bird")) (S_ "bird") <= 2.
Proof.
  apply (top_words_most_frequent (S_ "cat cat dog bird") 1 (S_ "cat") 2);
    [vm_compute; left; reflexivity|vm_compute; tauto|vm_compute; intros [H|[]]; discriminate].
Defined.

(** X5: with [n >= 1] (the page asks for 10), the chart has no bar, and
    the page says that no significant word is left, exactly when the
    text has no token outside the stopwords. *)
Theorem top_words_empty_iff (text : str) (n : Z) :
  (1 <= n)%Z -> (top_words text n = [] <-> tokens text = []).
Proof.
  intros Hn. split.
  - intros H. destruct (tokens text) as [|w ws] eqn:E; [reflexivity|exfalso].
    pose proof (top_words_length text n) as L. rewrite H, E in L. simpl in L.
    assert (Hn' : 1 <= Z.to_nat n) by lia.
    assert (Hk : get (counter (w :: ws)) w <> 0).
    { rewrite get_counter. simpl. destruct (str_dec w w); [lia|congruence]. }
    apply get_in in Hk. apply (in_map fst) in Hk. rewrite counter_keys in Hk.
    destruct (first_occ (w :: ws)); [destruct Hk|]. simpl in L. lia.
  - intros H. rewrite top_words_prefix, H. destruct (Z.to_nat n); reflexivity.
Qed.

Lemma top_words_empty_iff_witness :
  (1 <= 10)%Z /\
  (top_words (S_ "It is what it is") 10 = [] <-> tokens (S_ "It is what it is") = []).
Proof.
  split; [lia|]. apply top_words_empty_iff. lia.
Defined.

(** ** quick_summarize *)

Lemma length_join_cons x l :
  length (join_space (x :: l)) =
  length x + match l with [] => 0 | _ => S (length (join_space l)) end.
Proof.
  destruct l as [|y l]; simpl; [lia|].
  rewrite length_app. simpl. reflexivity.
Qed.

Lemma split_go_length st acc l :
  length (join_space (split_go st acc l)) <= length acc + length l.
Proof.
  revert st acc; induction l as [|c l IH]; intros st acc; simpl.
  - rewrite length_rev. lia.
  - destruct st as [prev|].
    + destruct (prev && is_space c).
      * rewrite length_join_cons, length_rev.
        pose proof (IH None []) as H. simpl in H.
        destruct (split_go None [] l) eqn:E; [exfalso; eapply split_go_not_nil; exact E|].
        lia.
      * specialize (IH (Some (is_punct c)) (c :: acc)). simpl in IH. lia.
    + destruct (is_space c).
      * specialize (IH None acc). lia.
      * specialize (IH (Some (is_punct c)) (c :: acc)). simpl in IH. lia.
Qed.

Lemma join_sublist_length (l1 l2 : list str) :
  l1 `sublist_of` l2 -> length (join_space l1) <= length (join_space l2).
Proof.
  induction 1 as [|x l1 l2 H IH|x l1 l2 H IH].
  - lia.
  - rewrite !length_join_cons.
    destruct l1; [lia|]. destruct l2; [inversion H|]. lia.
  - rewrite length_join_cons. destruct l2; [|lia].
    inversion H; subst. simpl. lia.
Qed.

Lemma drop_space_length l : length (drop_space l) <= length l.
Proof. induction l as [|c l IH]; simpl; [lia|]. destruct (is_space c); simpl; lia. Qed.

Lemma py_strip_length t : length (py_strip t) <= length t.
Proof.
  unfold py_strip. rewrite length_rev.
  pose proof (drop_space_length (rev (drop_space t))) as H1.
  rewrite length_rev in H1. pose proof (drop_space_length t). lia.
Qed.

Lemma chosen_sublist text k :
  map snd (chosen_of text k) `sublist_of` sents_of text.
Proof.
  rewrite chosen_of_eq.
  pose proof (sublist_map_snd_filter (fun p => mem (snd p) (map cand_sent (top_of text k)))
                (combine (seq 0 (length (sents_of text))) (sents_of text))) as H.
  rewrite enum_snd in H. exact H.
Qed.

(** X6: the summary is never longer than the text. *)
Theorem summary_not_longer (text : str) (k : Z) :
  length (quick_summarize text k) <= length text.
Proof.
  rewrite quick_summarize_eq. destruct (fallback text k); [lia|].
  pose proof (join_sublist_length _ _ (chosen_sublist text k)) as H1.
  pose proof (split_go_length (Some false) [] (py_strip text)) as H2.
  pose proof (py_strip_length text) as H3.
  unfold sents_of, re_split_sent in H1. simpl in H2. lia.
Qed.

(** The pieces of a stripped text are non-empty. *)
Lemma split_go_pieces_nonempty st acc l :
  (st = Some true -> acc <> []) -> (st = None -> acc = []) ->
  (l = [] -> acc <> []) -> (l <> [] -> is_space (List.last l " "%char) = false) ->
  forall p, In p (split_go st acc l) -> p <> [].
Proof.
  revert st acc; induction l as [|c l IH]; intros st acc H1 H2 H3 H4 p Hp.
  - simpl in Hp. destruct Hp as [<-|[]].
    intros E. apply (f_equal (@rev ascii)) in E. rewrite rev_involutive in E.
    apply H3; [reflexivity|exact E].
  - assert (Hlast : l = [] -> is_space c = false).
    { intros ->. apply H4. discriminate. }
    assert (Hl : l <> [] -> is_space (List.last l " "%char) = false).
    { intros Hne. destruct l as [|a l]; [congruence|]. exact (H4 ltac:(discriminate)). }
    simpl in Hp. destruct st as [prev|].
    + destruct (prev && is_space c) eqn:E.
      * apply andb_true_iff in E. destruct E as [-> Es].
        destruct Hp as [<-|Hp].
        -- intros E. apply (f_equal (@rev ascii)) in E. rewrite rev_involutive in E.
           apply (H1 eq_refl E).
        -- apply (IH None []); [intros E0; discriminate E0|intros _; reflexivity| |exact Hl|exact Hp].
           intros E0. subst l. specialize (Hlast eq_refl). congruence.
      * apply (IH (Some (is_punct c)) (c :: acc));
          [intros _; discriminate|intros E0; discriminate E0|intros _; discriminate|exact Hl|exact Hp].
    + specialize (H2 eq_refl). subst acc. destruct (is_space c) eqn:Es.
      * apply (IH None []); [intros E0; discriminate E0|intros _; reflexivity| |exact Hl|exact Hp].
        intros E0. subst l. specialize (Hlast eq_refl). congruence.
      * apply (IH (Some (is_punct c)) [c]);
          [intros _; discriminate|intros E0; discriminate E0|intros _; discriminate|exact Hl|exact Hp].
Qed.

Lemma drop_space_hd l :
  drop_space l = [] \/ exists c r, drop_space l = c :: r /\ is_space c = false.
Proof.
  induction l as [|c l IH]; simpl; [left; reflexivity|].
  destruct (is_space c) eqn:E; [exact IH|right; exists c, l; split; [reflexivity|exact E]].
Qed.

Lemma drop_space_nil l : drop_space l = [] -> forallb is_space l = true.
Proof.
  induction l as [|c l IH]; simpl; [reflexivity|].
  destruct (is_space c); simpl; [exact IH|discriminate].
Qed.

Lemma runs_all_space l :
  forallb is_space l = true -> runs (fun c => negb (is_space c)) [] l = [].
Proof.
  induction l as [|c l IH]; simpl; [reflexivity|].
  intros H. apply andb_true_iff in H. destruct H as [-> H]. simpl. apply IH, H.
Qed.

Lemma forallb_rev {A} (f : A -> bool) l : forallb f (rev l) = forallb f l.
Proof.
  induction l as [|x l IH]; simpl; [reflexivity|].
  rewrite forallb_app, IH. simpl. rewrite andb_true_r, andb_comm. reflexivity.
Qed.

Lemma py_strip_shape t :
  py_split t <> [] ->
  py_strip t <> [] /\ is_space (List.last (py_strip t) " "%char) = false.
Proof.
  intros Hs. unfold py_strip.
  destruct (drop_space_hd (rev (drop_space t))) as [E|[c [r [E Hc]]]].
  - exfalso. apply Hs. apply runs_all_space.
    apply drop_space_nil in E. rewrite forallb_rev in E.
    destruct (drop_space_hd t) as [E'|[c [r [E' Hc]]]].
    + apply drop_space_nil, E'.
    + rewrite E' in E. simpl in E. rewrite Hc in E. discriminate.
  - rewrite E. simpl. split.
    + intros H. apply app_eq_nil in H. destruct H as [_ H]. discriminate.
    + rewrite last_last. exact Hc.
Qed.

Lemma in_join_nonempty (l : list str) p : In p l -> p <> [] -> join_space l <> [].
Proof.
  induction l as [|x l IH]; intros Hp Hne; [destruct Hp|].
  intros E. pose proof (f_equal (@length ascii) E) as L. rewrite length_join_cons in L.
  simpl in L. destruct Hp as [Ex|Hp].
  - subst x. destruct p; [congruence|]. simpl in L. lia.
  - destruct l; [destruct Hp|]. lia.
Qed.

(** X7: for a non-empty text and [max_sentences >= 1] the summary is not
    empty, so the Quick Summary box never falls back to the dash
    placeholder for a non-empty transcription. *)
Theorem summary_nonempty (text : str) (k : Z) :
  text <> [] -> (1 <= k)%Z ->
  quick_summarize text k <> [] /\ summary_box text <> None.
Proof.
  assert (G : forall text k, text <> [] -> (1 <= k)%Z -> quick_summarize text k <> []).
  { clear. intros text k Ht Hk. rewrite quick_summarize_eq.
    destruct (fallback text k) eqn:Ef; [exact Ht|].
    unfold fallback in Ef. apply orb_false_iff in Ef. destruct Ef as [Ef _].
    apply orb_false_iff in Ef. destruct Ef as [_ Ew]. apply Nat.ltb_ge in Ew.
    assert (Hsp : py_split text <> []) by (intros E; rewrite E in Ew; simpl in Ew; lia).
    destruct (py_strip_shape text Hsp) as [Hne Hlast].
    assert (Hpieces : forall p, In p (sents_of text) -> p <> []).
    { apply split_go_pieces_nonempty; try discriminate; auto. }
    destruct (ranking text) as [|r rs] eqn:Er.
    { exfalso. pose proof (Permutation_length (isort_perm cand_before (scores_of text))) as L.
      fold (ranking text) in L. rewrite Er in L. simpl in L.
      unfold scores_of, score_list in L. rewrite length_map, length_combine, length_seq in L.
      destruct (sents_of text) eqn:Es; [eapply sents_of_not_nil; exact Es|]. simpl in L. lia. }
    destruct r as [[sc i] s].
    assert (Htop : In (sc, i, s) (top_of text k)).
    { unfold top_of. rewrite Er, py_take_nonneg by lia.
      destruct (Z.to_nat k) eqn:Ek; [lia|]. left. reflexivity. }
    assert (Hsc : In (sc, i, s) (scores_of text)).
    { apply (Permutation_in _ (isort_perm cand_before _)). fold (ranking text). rewrite Er. left. reflexivity. }
    assert (Henum : In (i, s) (combine (seq 0 (length (sents_of text))) (sents_of text))).
    { unfold scores_of in Hsc. rewrite <- (drop_scores_enum (freq_of text)).
      apply (in_map (fun c : cand => let '(_, i, s) := c in (i, s))) in Hsc. exact Hsc. }
    apply (in_join_nonempty _ s).
    - apply in_map_iff. exists (i, s). split; [reflexivity|].
      rewrite chosen_of_eq. apply filter_In. split; [exact Henum|].
      simpl. unfold mem. apply existsb_exists. exists s. split; [|apply str_eqb_refl].
      apply (in_map cand_sent) in Htop. exact Htop.
    - apply Hpieces. apply enum_nth in Henum. rewrite Nat.sub_0_r in Henum.
      eapply nth_error_In, Henum. }
  intros Ht Hk. split; [apply G; assumption|].
  unfold summary_box. pose proof (G text 3%Z Ht ltac:(lia)) as H.
  destruct (quick_summarize text 3); [congruence|discriminate].
Qed.

Lemma summary_nonempty_witness :
  doc_ties <> [] /\ (1 <= 1)%Z
  /\ (quick_summarize doc_ties 1 <> [] /\ summary_box doc_ties <> None).
Proof.
  assert (Hd : doc_ties <> []) by (vm_compute; intros E; discriminate E).
  split; [exact Hd|]. split; [lia|]. apply summary_nonempty; [exact Hd|lia].
Defined.

(** ** clean_quotes *)

Lemma drop_space_while l : drop_space l = drop_while is_space l.
Proof. induction l as [|c l IH]; simpl; [reflexivity|]. destruct (is_space c); auto. Qed.

Lemma drop_while_suffix p l : exists pre, l = pre ++ drop_while p l.
Proof.
  induction l as [|c l [pre IH]]; simpl; [exists []; reflexivity|].
  destruct (p c); [exists (c :: pre); simpl; f_equal; exact IH|exists []; reflexivity].
Qed.

Lemma drop_while_hd p l c r : drop_while p l = c :: r -> p c = false.
Proof.
  induction l as [|d l IH]; simpl; [discriminate|].
  destruct (p d) eqn:E; [exact IH|]. intros H. inversion H; subst. exact E.
Qed.

Lemma drop_while_id p l : (forall c r, l = c :: r -> p c = false) -> drop_while p l = l.
Proof. destruct l as [|c r]; simpl; intros H; [reflexivity|]. rewrite (H c r eq_refl). reflexivity. Qed.

Lemma strip_by_infix p s : exists a b, s = a ++ strip_by p s ++ b.
Proof.
  unfold strip_by.
  destruct (drop_while_suffix p s) as [pre E1].
  destruct (drop_while_suffix p (rev (drop_while p s))) as [pre2 E2].
  exists pre, (rev pre2). rewrite E1 at 1. f_equal.
  rewrite <- rev_app_distr, <- E2, rev_involutive. reflexivity.
Qed.

Lemma strip_by_ends p s :
  (forall c r, strip_by p s = c :: r -> p c = false)
  /\ (forall c r, strip_by p s = r ++ [c] -> p c = false).
Proof.
  unfold strip_by. split.
  - intros c r H.
    destruct (drop_while_suffix p (rev (drop_while p s))) as [pre2 E2].
    apply (f_equal (@rev ascii)) in E2. rewrite rev_involutive, rev_app_distr, H in E2.
    apply (drop_while_hd p s c (r ++ rev pre2)). rewrite E2. reflexivity.
  - intros c r H.
    apply (f_equal (@rev ascii)) in H. rewrite rev_involutive, rev_app_distr in H.
    simpl in H. apply (drop_while_hd _ _ _ _ H).
Qed.

Lemma strip_by_id p s :
  (forall c r, s = c :: r -> p c = false) -> (forall c r, s = r ++ [c] -> p c = false) ->
  strip_by p s = s.
Proof.
  intros Hh Hl. unfold strip_by. rewrite (drop_while_id p s Hh).
  rewrite drop_while_id; [apply rev_involutive|].
  intros c r E. apply (Hl c (rev r)). rewrite <- (rev_involutive s), E. reflexivity.
Qed.

Lemma py_strip_by s : py_strip s = strip_by is_space s.
Proof.
  unfold py_strip, strip_by. rewrite !drop_space_while. reflexivity.
Qed.

(** X8: [clean_quotes] returns a contiguous piece of its input that
    neither starts nor ends with a single quote. *)
Theorem clean_quotes_shape (s : str) :
  (exists a b, s = a ++ clean_quotes s ++ b)
  /\ (forall c r, clean_quotes s = c :: r -> is_code 39 c = false)
  /\ (forall c r, clean_quotes s = r ++ [c] -> is_code 39 c = false).
Proof.
  split; [|apply strip_by_ends].
  unfold clean_quotes. rewrite py_strip_by.
  destruct (strip_by_infix is_space s) as [a1 [b1 E1]].
  destruct (strip_by_infix (is_code 34) (strip_by is_space s)) as [a2 [b2 E2]].
  destruct (strip_by_infix (is_code 39) (strip_by (is_code 34) (strip_by is_space s))) as [a3 [b3 E3]].
  exists (a1 ++ a2 ++ a3), (b3 ++ b2 ++ b1).
  rewrite E1 at 1. rewrite E2 at 1. rewrite E3 at 1. rewrite !app_assoc. reflexivity.
Qed.

(** X9: a name whose first and last characters are neither whitespace
    nor a quote (or an empty name) is returned unchanged. *)
Theorem clean_quotes_id (s : str) :
  (forall c r, s = c :: r -> quote_or_space c = false) ->
  (forall c r, s = r ++ [c] -> quote_or_space c = false) ->
  clean_quotes s = s.
Proof.
  intros Hh Hl. unfold clean_quotes. rewrite py_strip_by.
  assert (F : forall q, (forall c, quote_or_space c = false -> q c = false) ->
                strip_by q s = s).
  { intros q Hq. apply strip_by_id; intros c r E; apply Hq; [apply (Hh c r E)|apply (Hl c r E)]. }
  unfold quote_or_space in *.
  rewrite (F is_space), (F (is_code 34)), (F (is_code 39)); [reflexivity| |  |];
    intros c Hc; apply orb_false_iff in Hc; destruct Hc as [Hc H3];
    apply orb_false_iff in Hc; destruct Hc as [H1 H2]; assumption.
Qed.

Lemma clean_quotes_id_witness :
  (forall c r, S_ "clip.wav" = c :: r -> quote_or_space c = false)
  /\ (forall c r, S_ "clip.wav" = r ++ [c] -> quote_or_space c = false)
  /\ clean_quotes (S_ "clip.wav") = S_ "clip.wav".
Proof.
  assert (Hh : forall c r, S_ "clip.wav" = c :: r -> quote_or_space c = false).
  { intros c r E. cbv in E. inversion E; subst. reflexivity. }
  assert (Hl : forall c r, S_ "clip.wav" = r ++ [c] -> quote_or_space c = false).
  { intros c r E.
    assert (E2 : S_ "clip.wav" = S_ "clip.wa" ++ ["v"%char]) by reflexivity.
    rewrite E2 in E. apply app_inj_tail in E. destruct E as [_ <-]. reflexivity. }
  split; [exact Hh|]. split; [exact Hl|]. apply clean_quotes_id; assumption.
Defined.

(** ** make_docx_bytes *)

Lemma split_nl_go_not_nil acc l : split_nl_go acc l <> [].
Proof.
  revert acc; induction l as [|c l IH]; intros acc; simpl; [discriminate|].
  destruct (is_code 10 c); [discriminate|apply IH].
Qed.

Lemma join_split_nl_go acc l : join_nl (split_nl_go acc l) = rev acc ++ l.
Proof.
  revert acc; induction l as [|c l IH]; intros acc; simpl; [symmetry; apply app_nil_r|].
  destruct (is_code 10 c) eqn:E.
  - pose proof (split_nl_go_not_nil [] l) as Hne.
    destruct (split_nl_go [] l) as [|p ps] eqn:Es; [congruence|].
    change (join_nl (rev acc :: p :: ps)) with (rev acc ++ [ascii_of_nat 10] ++ join_nl (p :: ps)).
    rewrite <- Es, IH. simpl.
    apply Nat.eqb_eq in E. rewrite <- E, ascii_nat_embedding. reflexivity.
  - rewrite IH. simpl. rewrite <- app_assoc. reflexivity.
Qed.

Lemma length_split_nl_go acc l :
  length (split_nl_go acc l) = S (length (List.filter (is_code 10) l)).
Proof.
  revert acc; induction l as [|c l IH]; intros acc; simpl; [reflexivity|].
  destruct (is_code 10 c); simpl; rewrite IH; reflexivity.
Qed.

(** X10: the DOCX export writes one paragraph per line: the paragraphs
    are the lines of the text (the empty-text case included), there is
    one more of them than there are newlines, and joining them with
    newlines gives the text back. *)
Theorem docx_paragraphs_lines (text : str) :
  docx_paragraphs text = split_nl text
  /\ length (docx_paragraphs text) = S (length (List.filter (is_code 10) text))
  /\ join_nl (docx_paragraphs text) = text.
Proof.
  assert (E : docx_paragraphs text = split_nl text) by (destruct text; reflexivity).
  rewrite E. split; [reflexivity|]. split.
  - apply length_split_nl_go.
  - apply join_split_nl_go.
Qed.

(** ** make_txt_bytes *)

Lemma utf8_char_app c d r1 r2 :
  utf8_char c ++ r1 = utf8_char d ++ r2 -> c = d /\ r1 = r2.
Proof.
  unfold utf8_char. intros H.
  pose proof (nat_ascii_bounded c) as Bc. pose proof (nat_ascii_bounded d) as Bd.
  assert (K : Z.of_nat (nat_of_ascii c) = Z.of_nat (nat_of_ascii d) -> c = d).
  { intros Ez. rewrite <- (ascii_nat_embedding c), <- (ascii_nat_embedding d).
    f_equal. lia. }
  set (n := Z.of_nat (nat_of_ascii c)) in *. set (m := Z.of_nat (nat_of_ascii d)) in *.
  assert (0 <= n < 256 /\ 0 <= m < 256)%Z as [Hn Hm] by lia.
  clearbody n m.
  pose proof (Z.div_mod n 64 ltac:(lia)). pose proof (Z.div_mod m 64 ltac:(lia)).
  pose proof (Z.mod_pos_bound n 64 ltac:(lia)). pose proof (Z.mod_pos_bound m 64 ltac:(lia)).
  destruct (Z.ltb_spec n 128), (Z.ltb_spec m 128); simpl in H.
  - injection H as E1 E2. split; [apply K, E1|exact E2].
  - injection H as E1 E2. exfalso. lia.
  - injection H as E1 E2. exfalso. lia.
  - injection H as E1 E2 E3. split; [apply K|exact E3]. lia.
Qed.

(** X11: the TXT export is injective (different texts give different
    files), every byte is in [0, 256), the file has one extra byte per
    character above 127, and an ASCII text is written byte for byte. *)
Theorem txt_bytes_props (t1 t2 : str) :
  (make_txt_bytes t1 = make_txt_bytes t2 -> t1 = t2)
  /\ Forall (fun b => 0 <= b < 256)%Z (make_txt_bytes t1)
  /\ length (make_txt_bytes t1)
     = length t1 + length (List.filter (fun c => 128 <=? nat_of_ascii c) t1)
  /\ (forallb (fun c => nat_of_ascii c <? 128) t1 = true ->
      make_txt_bytes t1 = map (fun c => Z.of_nat (nat_of_ascii c)) t1).
Proof.
  split; [|split; [|split]].
  - revert t2; induction t1 as [|c t1 IH]; intros [|d t2] H; simpl in H.
    + reflexivity.
    + exfalso. unfold utf8_char in H. destruct (_ <? _)%Z; discriminate.
    + exfalso. unfold utf8_char in H. destruct (_ <? _)%Z; discriminate.
    + apply utf8_char_app in H. destruct H as [-> H]. f_equal. apply IH, H.
  - unfold make_txt_bytes. apply List.Forall_forall. intros b Hb.
    apply in_flat_map in Hb. destruct Hb as [c [_ Hb]].
    pose proof (nat_ascii_bounded c). unfold utf8_char in Hb.
    set (n := Z.of_nat (nat_of_ascii c)) in *.
    assert (0 <= n < 256)%Z as Hn by lia. clearbody n.
    pose proof (Z.div_mod n 64 ltac:(lia)). pose proof (Z.mod_pos_bound n 64 ltac:(lia)).
    destruct (Z.ltb_spec n 128); simpl in Hb;
      repeat (destruct Hb as [<-|Hb]; [lia|]); destruct Hb.
  - induction t1 as [|c t1 IH]; [reflexivity|].
    change (make_txt_bytes (c :: t1)) with (utf8_char c ++ make_txt_bytes t1).
    cbn [List.filter]. rewrite length_app, IH. unfold utf8_char.
    destruct (Z.ltb_spec (Z.of_nat (nat_of_ascii c)) 128), (Nat.leb_spec 128 (nat_of_ascii c));
      cbn [length]; lia.
  - induction t1 as [|c t1 IH]; intros H; [reflexivity|].
    simpl in H. apply andb_true_iff in H. destruct H as [Hc H].
    simpl. rewrite IH by exact H. unfold utf8_char.
    apply Nat.ltb_lt in Hc. destruct (Z.ltb_spec (Z.of_nat (nat_of_ascii c)) 128); [reflexivity|lia].
Qed.

(** ** Session state: transcription and history *)

Lemma history_view_snoc h x :
  history_view (h ++ [x]) = x :: firstn 4 (rev h).
Proof. unfold history_view. rewrite rev_app_distr. reflexivity. Qed.

Lemma step_history_cases s e :
  (recorded e = true /\ exists it, history (step s e) = history s ++ [it]
     /\ transcription (step s e) = item_text it)
  \/ (recorded e = false /\ history (step s e) = history s).
Proof.
  destruct e as [n l [o|m]|l [o|m]|]; simpl.
  - left. split; [reflexivity|]. eexists. split; reflexivity.
  - right. split; reflexivity.
  - left. split; [reflexivity|]. eexists. split; reflexivity.
  - right. split; reflexivity.
  - right. split; [reflexivity|]. destruct (transcription s); reflexivity.
Qed.

(** X12: the history is append-only: a run of events only adds items at
    its end, one per event whose handler reached the recognizer. *)
Theorem run_history s es :
  exists added, history (run s es) = history s ++ added
    /\ length added = length (List.filter recorded es).
Proof.
  revert s; induction es as [|e es IH]; intros s.
  - exists []. split; [symmetry; apply app_nil_r|reflexivity].
  - unfold run; simpl; fold (run (step s e) es).
    destruct (IH (step s e)) as [added [Ha Hl]].
    destruct (step_history_cases s e) as [[Hr [it [Hh _]]]|[Hr Hh]];
      rewrite Hr; rewrite Hh in Ha.
    + exists (it :: added). rewrite Ha, <- app_assoc. split; [reflexivity|].
      simpl. rewrite Hl. reflexivity.
    + exists added. split; assumption.
Qed.

(** X13: after an upload or microphone event that reached the recognizer,
    the displayed transcription is the text of the new history item, and
    the history panel shows that item first, followed by the four most
    recent earlier items. *)
Theorem recorded_step s e :
  recorded e = true ->
  exists it, history (step s e) = history s ++ [it]
    /\ transcription (step s e) = item_text it
    /\ history_view (history (step s e)) = it :: firstn 4 (history_view (history s)).
Proof.
  intros Hr. destruct (step_history_cases s e) as [[_ [it [Hh Ht]]]|[Hr' _]];
    [|congruence].
  exists it. split; [exact Hh|]. split; [exact Ht|].
  rewrite Hh, history_view_snoc. unfold history_view.
  rewrite firstn_firstn. reflexivity.
Qed.

Lemma recorded_step_witness :
  let s := {| transcription := []; history := [] |} in
  let e := MicEv (S_ "en-US") (Transcribed (Recognized (S_ "hi"))) in
  recorded e = true /\
  exists it, history (step s e) = history s ++ [it]
    /\ transcription (step s e) = item_text it
    /\ history_view (history (step s e)) = it :: firstn 4 (history_view (history s)).
Proof.
  intros s e. split; [reflexivity|]. apply recorded_step. reflexivity.
Defined.

(** X14: an event whose handler did not reach the recognizer (a failed
    conversion, or the Clear button) never changes the history, and leaves
    the transcription either unchanged or empty. *)
Theorem unrecorded_step s e :
  recorded e = false ->
  history (step s e) = history s
  /\ (transcription (step s e) = transcription s \/ transcription (step s e) = []).
Proof.
  intros Hr. destruct e as [n l [o|m]|l [o|m]|]; simpl in Hr |- *;
    try discriminate; try (split; [reflexivity|left; reflexivity]).
  destruct s as [[|c t] h]; simpl; split; auto.
Qed.

Lemma unrecorded_step_witness :
  let s := {| transcription := S_ "hello"; history := [] |} in
  recorded ClearEv = false /\
  (history (step s ClearEv) = history s
   /\ (transcription (step s ClearEv) = transcription s
       \/ transcription (step s ClearEv) = [])).
Proof.
  intros s. split; [reflexivity|]. apply unrecorded_step. reflexivity.
Defined.


(** X16: [transcribe_wav_path] returns an empty text only when the
    recognizer itself returned an empty text: every error is turned into a
    non-empty message, which then becomes the transcription. *)
Theorem transcribe_result_empty o :
  transcribe_result o = [] -> o = Recognized [].
Proof.
  destruct o as [t| |e|e]; simpl; intros H.
  - subst t. reflexivity.
  - discriminate H.
  - discriminate H.
  - discriminate H.
Qed.

Lemma transcribe_result_empty_witness :
  transcribe_result (Recognized []) = [] /\ Recognized [] = Recognized [].
Proof. split; [reflexivity|]. apply transcribe_result_empty. reflexivity. Defined.

(** X17: the history panel lists the last five items (at most), newest
    first: its i-th entry is the i-th item counted from the end. *)
Theorem history_view_last5 (h : list hist_item) (d : hist_item) :
  history_view h = rev (skipn (length h - 5) h)
  /\ length (history_view h) = Nat.min 5 (length h)
  /\ (forall i, i < Nat.min 5 (length h) ->
        nth i (history_view h) d = nth (length h - S i) h d).
Proof.
  unfold history_view. split; [apply firstn_rev|]. split.
  - rewrite length_firstn, length_rev. reflexivity.
  - intros i Hi. rewrite nth_firstn.
    destruct (Nat.ltb_spec i 5); [|exfalso; lia].
    apply rev_nth. lia.
Qed.

(** X18: the code block of a history entry has at most 801 characters:
    it starts with the first 800 characters of the text, is the whole text
    when that has at most 800 characters, and otherwise is those 800
    characters followed by the ellipsis. *)
Theorem snippet_props {A} (ell : A) (text : list A) :
  length (snippet ell text) = Nat.min 801 (length text)
  /\ firstn 800 (snippet ell text) = firstn 800 text
  /\ (length text <= 800 -> snippet ell text = text)
  /\ (800 < length text -> snippet ell text = firstn 800 text ++ [ell]).
Proof.
  unfold snippet. destruct (Nat.ltb_spec 800 (length text)) as [Hl|Hl].
  - split; [rewrite length_app, length_firstn; cbn [length]; lia|].
    split; [|split; [intros; exfalso; lia|reflexivity]].
    rewrite firstn_app, firstn_firstn, length_firstn.
    replace (800 - Nat.min 800 (length text)) with 0 by lia.
    rewrite app_nil_r. reflexivity.
  - rewrite app_nil_r, (firstn_all2 text) by lia.
    split; [lia|]. split; [apply firstn_all2; lia|].
    split; [reflexivity|intros; exfalso; lia].
Qed.
